(** * Asset inventory core: node hierarchy, protocol settings, layered info

    A shallow embedding of [apps/assets/models/asset/common.py]: the
    [AssetQuerySet] helpers aside, every method of [NodesRelationMixin],
    [Protocol] and [Asset] that resolves nodes, settings, info maps, the
    automation config, the ssh port and the secret-type classification.

    Python dicts are [gmap string pyval]; [dict.update] is the left-biased
    union with the argument on the left.  QuerySets are lists of rows in
    result order, evaluated against explicit tables.  A raised exception is
    [None] in the [option] monad. *)

From stdpp Require Import base option list gmap strings fin_maps sets.
From Stdlib Require Import ZArith Lia.

(* [set_solver] clears hypotheses by name on its way. *)
Set Warnings "-clear-no-such-hyp".

Local Open Scope string_scope.
Local Open Scope Z_scope.

(** ** Python values *)

(** The values that a JSON column, a setting blob or a model attribute can
    hold. *)
#[warnings="-register-all"]
Inductive pyval : Type :=
  | PNone
  | PBool (b : bool)
  | PInt (z : Z)
  | PStr (s : string)
  | PList (l : list pyval)
  | PDict (m : gmap string pyval).

(** [isinstance(v, (list, dict))] *)
Definition is_list_or_dict (v : pyval) : bool :=
  match v with
  | PList _ | PDict _ => true
  | _ => false
  end.

(** [v is not None] *)
Definition is_not_None (v : pyval) : bool :=
  match v with
  | PNone => false
  | _ => true
  end.

(** [d or {}] for a column that holds a dict or [None]: [None] and the empty
    dict are falsy and give the fresh empty dict. *)
Definition or_empty (d : option (gmap string pyval)) : gmap string pyval :=
  match d with
  | None => ∅
  | Some m => if bool_decide (size m = 0%nat) then ∅ else m
  end.

(** [info.update(d)]: the keys of [d] overwrite those of [info]. *)
Definition dict_update (info d : gmap string pyval) : gmap string pyval :=
  d ∪ info.

(** ** Rows and model instances *)

(** A row of the node table. *)
Record Node : Type := mkNode {
  node_id : string;
  node_key : string;
  node_value : string
}.

#[global] Instance Node_eq_dec : EqDecision Node.
Proof. solve_decision. Defined.

(** A declaration of the platform's protocol catalog. *)
Record PlatformProtocol : Type := mkPlatformProtocol {
  pp_name : string;
  pp_public : bool;
  pp_setting : pyval
}.

(** A field of a category extension model: its name, whether it is a
    [models.JSONField], whether it is an [EncryptMixin]. *)
Record Field : Type := mkField {
  field_name : string;
  field_is_json : bool;
  field_is_encrypt : bool
}.

(** A category extension instance: [_meta.local_fields] and the attribute
    values read by [getattr]. *)
Record Instance : Type := mkInstance {
  local_fields : list Field;
  inst_getattr : string -> pyval
}.

Section Inventory.

(** The automation profile model and Django's [model_to_dict] on it. *)
Context {Automation : Type}.
Variable model_to_dict : Automation -> gmap string pyval.

(** [json.loads] on a [str]; [None] when it raises. *)
Variable json_loads : string -> option pyval.

(** [Node.get_ancestor_keys(with_self)] of the node model. *)
Variable get_ancestor_keys : Node -> bool -> list string.

(** [Node.org_root()] of the node model, a query on the node table. *)
Variable org_root : list Node -> Node.

(** [const.Protocol.protocol_secret_types()], the static table. *)
Variable protocol_secret_types : gmap string (list string).

Record Platform : Type := mkPlatform {
  platform_name : string;
  platform_type : string;
  platform_category : string;
  domain_enabled : bool;
  su_enabled : bool;
  automation : option Automation;
  platform_protocols : list PlatformProtocol
}.

(** An asset row with its platform resolved.  [extensions] holds the
    category extension instances reachable by attribute name. *)
Record Asset : Type := mkAsset {
  asset_id : string;
  asset_name : string;
  address : string;
  platform : Platform;
  is_active : bool;
  gathered_info : option (gmap string pyval);
  custom_info : option (gmap string pyval);
  extensions : gmap string Instance
}.

(** A protocol row; [proto_asset] is the owning asset, [_setting] the
    per-instance override ([PNone] by default). *)
Record Protocol : Type := mkProtocol {
  proto_id : Z;
  proto_name : string;
  proto_port : Z;
  proto_asset : Asset;
  _setting : pyval
}.

(** The tables the queries run against; [asset_nodes_table] is the
    many-to-many relation as (asset id, node id) pairs. *)
Record DB : Type := mkDB {
  node_table : list Node;
  asset_table : list Asset;
  protocol_table : list Protocol;
  asset_nodes_table : list (string * string)
}.

(** ** NodesRelationMixin *)

(** [self.nodes.all()]: the node rows related to the asset. *)
Definition nodes_all (db : DB) (a : Asset) : list Node :=
  filter (fun n => (asset_id a, node_id n) ∈ asset_nodes_table db)
         (node_table db).

Definition get_nodes (db : DB) (a : Asset) : list Node :=
  let nodes := nodes_all db a in
  match nodes with
  | [] => filter (fun n => node_id n = node_id (org_root (node_table db)))
                 (node_table db)
  | _ :: _ => nodes
  end.

Definition get_all_node_keys (db : DB) (a : Asset) : gset string :=
  foldl (fun node_keys node =>
           let ancestor_keys := get_ancestor_keys node true in
           node_keys ∪ list_to_set ancestor_keys)
        ∅ (get_nodes db a).

(** [get_all_nodes(flat=False)]; [.distinct()] drops repeated rows. *)
Definition get_all_nodes (db : DB) (a : Asset) : list Node :=
  let node_keys := get_all_node_keys db a in
  remove_dups (filter (fun n => node_key n ∈ node_keys) (node_table db)).

(** [get_all_nodes(flat=True)]: the set of the ids of those rows. *)
Definition get_all_nodes_flat (db : DB) (a : Asset) : gset string :=
  list_to_set (node_id <$> get_all_nodes db a).

Definition get_all_nodes_for_assets (db : DB) (assets : list Asset)
  : list Node :=
  let node_keys :=
    foldl (fun node_keys asset =>
             let asset_node_keys := get_all_node_keys db asset in
             node_keys ∪ asset_node_keys)
          ∅ assets in
  filter (fun n => node_key n ∈ node_keys) (node_table db).

(** ** Protocol *)

(** A row of [.values('name', 'public', 'setting')]. *)
Definition values_row (pp : PlatformProtocol) : gmap string pyval :=
  {[ "name" := PStr (pp_name pp);
     "public" := PBool (pp_public pp);
     "setting" := pp_setting pp ]}.

(** [p['name'] == name] for a [str] name. *)
Definition name_is (name : string) (p : gmap string pyval) : Prop :=
  match p !! "name" with
  | Some (PStr s) => s = name
  | _ => False
  end.

#[global] Instance name_is_dec name p : Decision (name_is name p).
Proof.
  unfold name_is. destruct (p !! "name") as [[]|]; solve_decision.
Defined.

Definition asset_platform_protocol (self : Protocol) : gmap string pyval :=
  let protocols :=
    values_row <$> platform_protocols (platform (proto_asset self)) in
  let protocols := filter (name_is (proto_name self)) protocols in
  match protocols with
  | p :: _ => p
  | [] => ∅
  end.

(** The [setting] property. *)
Definition setting (self : Protocol) : pyval :=
  if is_not_None (_setting self) then _setting self
  else default (PDict ∅) (asset_platform_protocol self !! "setting").

(** The [setting] setter. *)
Definition set_setting (self : Protocol) (value : pyval) : Protocol :=
  {| proto_id := proto_id self;
     proto_name := proto_name self;
     proto_port := proto_port self;
     proto_asset := proto_asset self;
     _setting := value |}.

(** The [public] property. *)
Definition public (self : Protocol) : pyval :=
  default (PBool true) (asset_platform_protocol self !! "public").

(** ** Asset *)

(** [json.loads(v)]: defined on a [str] only, any other value raises. *)
Definition loads (v : pyval) : option pyval :=
  match v with
  | PStr s => json_loads s
  | _ => None
  end.

(** The loop of [get_spec_values], [info] being the dict built so far. *)
Fixpoint get_spec_values_from (instance : Instance) (fields : list Field)
    (info : gmap string pyval) : option (gmap string pyval) :=
  match fields with
  | [] => Some info
  | i :: fields =>
      let v := inst_getattr instance (field_name i) in
      v ← (if field_is_json i && negb (is_list_or_dict v)
           then loads v else Some v);
      get_spec_values_from instance fields (<[field_name i := v]> info)
  end.

Definition get_spec_values (instance : Instance) (fields : list Field)
  : option (gmap string pyval) :=
  get_spec_values_from instance fields ∅.

Definition get_spec_fields (instance : Instance) (secret : bool)
  : list Field :=
  let spec_fields :=
    filter (fun i => field_name i ≠ "asset_ptr") (local_fields instance) in
  filter (fun i => field_is_encrypt i = secret) spec_fields.

(** The [category] property. *)
Definition category (self : Asset) : string :=
  platform_category (platform self).

(** [getattr(self, self.category, None)] *)
Definition category_instance (self : Asset) : option Instance :=
  extensions self !! category self.

Definition spec_info (self : Asset) : option (gmap string pyval) :=
  match category_instance self with
  | None => Some ∅
  | Some instance =>
      let spec_fields := get_spec_fields instance false in
      get_spec_values instance spec_fields
  end.

Definition secret_info (self : Asset) : option (gmap string pyval) :=
  match category_instance self with
  | None => Some ∅
  | Some instance =>
      let spec_fields := get_spec_fields instance true in
      get_spec_values instance spec_fields
  end.

Definition info (self : Asset) : option (gmap string pyval) :=
  let info := ∅ in
  let info := dict_update info (or_empty (gathered_info self)) in
  let info := dict_update info (or_empty (custom_info self)) in
  spec ← spec_info self;
  Some (dict_update info (or_empty (Some spec))).

Definition auto_config (self : Asset) : gmap string pyval :=
  let platform := platform self in
  let automation := automation platform in
  let auto_config : gmap string pyval :=
    {[ "su_enabled" := PBool (su_enabled platform);
       "domain_enabled" := PBool (domain_enabled platform);
       "ansible_enabled" := PBool false ]} in
  match automation with
  | None => auto_config
  | Some automation => dict_update auto_config (model_to_dict automation)
  end.

(** [self.protocols.all()]: the protocol rows owned by the asset. *)
Definition protocols_all (db : DB) (a : Asset) : list Protocol :=
  filter (fun p => asset_id (proto_asset p) = asset_id a) (protocol_table db).

(** [.first()] on protocol rows: the model declares no ordering, so the rows
    are ordered by primary key and the first one is taken. *)
Definition first (rows : list Protocol) : option Protocol :=
  foldl (fun best p =>
           match best with
           | None => Some p
           | Some b => if Z.ltb (proto_id p) (proto_id b) then Some p else Some b
           end)
        None rows.

Definition get_target_ssh_port (db : DB) (self : Asset) : Z :=
  let protocol :=
    first (filter (fun p => proto_name p = "ssh") (protocols_all db self)) in
  match protocol with
  | Some protocol => proto_port protocol
  | None => 22
  end.

(** [.values_list('id', 'protocols__name')]: one row per protocol of each
    asset, and one row with a null name for an asset without protocols. *)
Definition values_list_id_protocols_name (db : DB) (assets : list Asset)
  : list (string * option string) :=
  a ← assets;
  match protocols_all db a with
  | [] => [(asset_id a, None)]
  | ps => (fun p => (asset_id a, Some (proto_name p))) <$> ps
  end.

Definition get_secret_type_assets (db : DB) (asset_ids : list string)
    (secret_type : string) : list Asset :=
  let assets := filter (fun a => asset_id a ∈ asset_ids) (asset_table db) in
  let asset_protocol := values_list_id_protocols_name db assets in
  let protocol_secret_types_map := protocol_secret_types in
  let asset_secret_types_mapp : gmap string (gset string) :=
    foldl (fun mapp '(asset_id, protocol) =>
             let secret_types : gset string :=
               list_to_set
                 (default [] (protocol ≫= (protocol_secret_types_map !!.))) in
             <[asset_id := default ∅ (mapp !! asset_id) ∪ secret_types]> mapp)
          ∅ asset_protocol in
  filter (fun asset =>
            secret_type ∈ default ∅ (asset_secret_types_mapp !! asset_id asset))
         assets.

(** ** AssetQuerySet *)

(** [self.filter(is_active=True)] *)
Definition active (self : list Asset) : list Asset :=
  filter (fun a => is_active a = true) self.

Definition valid (self : list Asset) : list Asset :=
  active self.

(** A [Platform] instance as a dict key: Django compares and hashes model
    instances by primary key. *)
Variable platform_pk : Platform -> Z.

(** [groups[asset.platform].append(asset)] on a [defaultdict(list)], kept
    as its items in insertion order: the list under the key equal to the
    asset's platform grows, a missing key is added last with a new list. *)
Fixpoint groups_append (groups : list (Platform * list Asset))
    (asset : Asset) : list (Platform * list Asset) :=
  match groups with
  | [] => [(platform asset, [asset])]
  | (p, members) :: groups =>
      if decide (platform_pk p = platform_pk (platform asset))
      then (p, (members ++ [asset])%list) :: groups
      else (p, members) :: groups_append groups asset
  end.

Definition group_by_platform (self : list Asset)
  : list (Platform * list Asset) :=
  foldl groups_append [] self.

(** The [is_valid] property: the flag and the warning text. *)
Definition is_valid (self : Asset) : bool * string :=
  let warning := "" in
  let warning :=
    if negb (is_active self) then warning +:+ " inactive" else warning in
  match warning with
  | EmptyString => (true, warning)
  | String _ _ => (false, warning)
  end.

End Inventory.

(** ** The claims' reference definitions *)

Section Reference.

Context {Automation : Type}.

(** The [setting] declared by the first catalog entry of the owning asset's
    platform whose name is the protocol's name; the empty map when no entry
    has that name. *)
Definition catalog_setting (p : @Protocol Automation) : pyval :=
  match filter (fun e => pp_name e = proto_name p)
               (platform_protocols (platform (proto_asset p))) with
  | e :: _ => pp_setting e
  | [] => PDict ∅
  end.

(** A layer of [info]: the map held by the column, no key at all when the
    column is null. *)
Definition layer (d : option (gmap string pyval)) : gmap string pyval :=
  default ∅ d.

(** The asset with its gathered and custom columns replaced. *)
Definition with_layers (a : @Asset Automation)
    (gathered custom : option (gmap string pyval)) : Asset :=
  {| asset_id := asset_id a;
     asset_name := asset_name a;
     address := address a;
     platform := platform a;
     is_active := is_active a;
     gathered_info := gathered;
     custom_info := custom;
     extensions := extensions a |}.

(** The base map of [auto_config]. *)
Definition base_config (p : @Platform Automation) : gmap string pyval :=
  {[ "su_enabled" := PBool (su_enabled p);
     "domain_enabled" := PBool (domain_enabled p);
     "ansible_enabled" := PBool false ]}.

(** The value [get_spec_values] stores for a field: the attribute, decoded
    by [json.loads] when the field is a JSON field whose attribute is not
    yet a list or a dict. *)
Definition field_value (json_loads : string -> option pyval)
    (instance : Instance) (i : Field) : option pyval :=
  let v := inst_getattr instance (field_name i) in
  if field_is_json i && negb (is_list_or_dict v)
  then loads json_loads v else Some v.

(** The union, over the protocols of the asset, of the secret types the
    static table gives for the protocol's name. *)
Definition asset_secret_types (table : gmap string (list string))
    (db : @DB Automation) (a : Asset) : gset string :=
  ⋃ ((fun p => list_to_set (default [] (table !! proto_name p)))
       <$> protocols_all db a).

(** [groups.get(platform)] on the items of the dict: the members under the
    key whose primary key is [k]. *)
Fixpoint group_members (platform_pk : @Platform Automation -> Z)
    (groups : list (Platform * list (@Asset Automation))) (k : Z)
  : option (list Asset) :=
  match groups with
  | [] => None
  | (p, members) :: groups =>
      if decide (platform_pk p = k) then Some members
      else group_members platform_pk groups k
  end.

End Reference.

(** ** Concrete inventories *)

Module Examples.

(** The examples take the automation profile to be its own field map. *)
Definition profile : Type := gmap string pyval.

Definition fields_of (p : profile) : gmap string pyval := p.

(** A decoder for the two JSON texts the examples store. *)
Definition decode (s : string) : option pyval :=
  if decide (s = "[]") then Some (PList [])
  else if decide (s = "{}") then Some (PDict ∅)
  else None.

Definition ssh_decl : PlatformProtocol :=
  mkPlatformProtocol "ssh" true (PDict {[ "x" := PInt 1 ]}).

Definition linux : @Platform profile :=
  mkPlatform "Linux" "linux" "host" true true None [ssh_decl].

Definition linux_automated : @Platform profile :=
  mkPlatform "Linux" "linux" "host" true false
             (Some {[ "ansible_enabled" := PBool true;
                      "ping_enabled" := PBool true ]})
             [ssh_decl].

Definition host_fields : list Field :=
  [ mkField "asset_ptr" false false;
    mkField "k" false false;
    mkField "disks" true false;
    mkField "token" false true ].

Definition host_attrs (name : string) : pyval :=
  if decide (name = "k") then PStr "s"
  else if decide (name = "disks") then PStr "[]"
  else if decide (name = "token") then PStr "t0"
  else PNone.

Definition host : Instance := mkInstance host_fields host_attrs.

(** An asset with the three layers defining the key [k]. *)
Definition a1 : @Asset profile :=
  mkAsset "a1" "web" "10.0.0.1" linux true
          (Some {[ "k" := PStr "g" ]}) (Some {[ "k" := PStr "c" ]})
          {[ "host" := host ]}.

(** The same layers without a category extension instance. *)
Definition a2 : @Asset profile :=
  mkAsset "a2" "db" "10.0.0.2" linux_automated true
          (Some {[ "k" := PStr "g" ]}) (Some {[ "k" := PStr "c" ]}) ∅.

Definition ssh1 : Protocol := mkProtocol 7 "ssh" 2222 a1 PNone.
Definition ssh2 : Protocol := mkProtocol 3 "ssh" 2022 a1 (PDict {[ "y" := PInt 2 ]}).
Definition rdp1 : Protocol := mkProtocol 4 "rdp" 3389 a2 PNone.
Definition vnc1 : Protocol := mkProtocol 5 "vnc" 5900 a2 PNone.

Definition root : Node := mkNode "n1" "1" "Default".
Definition child : Node := mkNode "n2" "1:2" "Web".

(** The ancestor keys of the two example nodes. *)
Definition ancestor_keys (n : Node) (with_self : bool) : list string :=
  if decide (node_key n = "1:2") then
    if with_self then ["1"; "1:2"] else ["1"]
  else if with_self then [node_key n] else [].

Definition the_root (nodes : list Node) : Node := root.

Definition secret_types_table : gmap string (list string) :=
  {[ "ssh" := ["password"; "ssh_key"]; "vnc" := ["vnc_password"] ]}.

Definition db : DB :=
  mkDB [root; child] [a1; a2] [ssh1; ssh2; rdp1; vnc1] [("a1", "n2")].

(** The protocol rows of [db] in another order. *)
Definition db_reordered : DB :=
  mkDB [root; child] [a1; a2] [ssh2; ssh1; vnc1; rdp1] [("a1", "n2")].

(** An inactive asset, linked to the root node alone in [db_rooted]. *)
Definition a3 : @Asset profile :=
  mkAsset "a3" "old" "10.0.0.3" linux false None None ∅.

Definition db_rooted : DB :=
  mkDB [root; child] [a1; a2; a3] [ssh1; ssh2; rdp1; vnc1]
       [("a1", "n2"); ("a3", "n1")].

(** The primary keys of the two example platforms. *)
Definition pk_of (p : @Platform profile) : Z :=
  if su_enabled p then 1 else 2.

End Examples.

(** * Properties *)

Section ProtocolResolver.

Context {Automation : Type}.
Implicit Types (p : @Protocol Automation) (e : PlatformProtocol).

Lemma values_row_name e : values_row e !! "name" = Some (PStr (pp_name e)).
Proof. unfold values_row. by rewrite lookup_insert_eq. Qed.

Lemma values_row_setting e : values_row e !! "setting" = Some (pp_setting e).
Proof.
  unfold values_row.
  rewrite !lookup_insert_ne by done. by rewrite lookup_singleton_eq.
Qed.

Lemma name_is_values_row name e : name_is name (values_row e) ↔ pp_name e = name.
Proof. unfold name_is. by rewrite values_row_name. Qed.

(** Filtering the projected rows by name is projecting the entries of that
    name. *)
Lemma filter_values_rows name (catalog : list PlatformProtocol) :
  filter (name_is name) (values_row <$> catalog)
  = values_row <$> filter (fun e => pp_name e = name) catalog.
Proof.
  induction catalog as [|e catalog IH]; [done|].
  rewrite fmap_cons, !filter_cons, IH.
  pose proof (name_is_values_row name e) as Hiff.
  destruct (decide (pp_name e = name)),
    (decide (name_is name (values_row e))); tauto || done.
Qed.

(** What the catalog lookup of [setting] yields. *)
Lemma asset_platform_protocol_setting p :
  default (PDict ∅) (asset_platform_protocol p !! "setting")
  = catalog_setting p.
Proof.
  unfold asset_platform_protocol, catalog_setting.
  rewrite filter_values_rows.
  destruct (filter _ (platform_protocols _)) as [|e rest]; simpl.
  - by rewrite lookup_empty.
  - by rewrite values_row_setting.
Qed.

Lemma is_not_None_true (v : pyval) : v ≠ PNone → is_not_None v = true.
Proof. by destruct v. Qed.

(** C2: [setting] returns the explicit override unchanged when one is set;
    with no override it returns the [setting] of the first entry of the
    owning asset's platform catalog that has the protocol's name, and the
    empty map when the catalog has no entry of that name. *)
Theorem setting_override_or_catalog p :
  (_setting p ≠ PNone → setting p = _setting p) ∧
  (_setting p = PNone → setting p = catalog_setting p) ∧
  (_setting p = PNone →
   (∀ e, e ∈ platform_protocols (platform (proto_asset p)) →
         pp_name e ≠ proto_name p) →
   setting p = PDict ∅).
Proof.
  split; [|split].
  - intros Hset. unfold setting. by rewrite is_not_None_true.
  - intros Hnone. unfold setting. rewrite Hnone. simpl.
    apply asset_platform_protocol_setting.
  - intros Hnone Hno. unfold setting. rewrite Hnone. simpl.
    rewrite asset_platform_protocol_setting. unfold catalog_setting.
    destruct (filter _ _) as [|e rest] eqn:Hf; [done|].
    assert (e ∈ filter (fun e => pp_name e = proto_name p)
                (platform_protocols (platform (proto_asset p)))) as He
      by (rewrite Hf; left).
    apply list_elem_of_filter in He as [Hname Hin].
    by destruct (Hno e Hin).
Qed.

(** C10: after the setter, [setting] honours the assigned value exactly when
    it is not [None]: an assigned empty map is returned as it is, whatever
    the catalog declares, and an assigned [None] gives the catalog lookup. *)
Theorem setting_after_set_setting p (v : pyval) :
  setting (set_setting p v)
  = (if is_not_None v then v else catalog_setting p) ∧
  setting (set_setting p (PDict ∅)) = PDict ∅ ∧
  setting (set_setting p PNone) = catalog_setting p.
Proof.
  assert (∀ w, setting (set_setting p w)
               = if is_not_None w then w else catalog_setting p) as Hgen.
  { intros w. unfold setting. simpl. destruct (is_not_None w); [done|].
    by rewrite asset_platform_protocol_setting. }
  split; [apply Hgen|]. split; by rewrite Hgen.
Qed.

End ProtocolResolver.

Section AssetInfoAggregator.

Context {Automation : Type}.
Variable model_to_dict : Automation -> gmap string pyval.
Variable json_loads : string -> option pyval.
Implicit Types (a : @Asset Automation) (m s : gmap string pyval).

Lemma or_empty_layer (d : option (gmap string pyval)) : or_empty d = layer d.
Proof.
  destruct d as [m|]; simpl; [|done].
  case_bool_decide as Hsize; [|done].
  symmetry. by apply map_size_empty_inv.
Qed.

(** [info] as one expression: the structured fields over the custom map over
    the gathered map, and an error when reading the structured fields fails. *)
Lemma info_unfold a :
  info json_loads a
  = s ← spec_info json_loads a;
    Some (s ∪ (layer (custom_info a) ∪ layer (gathered_info a))).
Proof.
  unfold info, dict_update. rewrite !or_empty_layer.
  destruct (spec_info json_loads a) as [s|]; [|done].
  change (s ← Some s; Some (or_empty (Some s) ∪ _)) with
    (Some (or_empty (Some s)
           ∪ (layer (custom_info a) ∪ (layer (gathered_info a) ∪ ∅)))).
  rewrite or_empty_layer. simpl. by rewrite (right_id_L ∅ (∪)).
Qed.

(** The loop of [get_spec_values] stores, under each key it adds, the value
    of a field of that name. *)
Lemma get_spec_values_from_lookup instance fields m0 m k v :
  get_spec_values_from json_loads instance fields m0 = Some m →
  m !! k = Some v →
  m0 !! k = Some v ∨
  ∃ i, i ∈ fields ∧ field_name i = k ∧
       field_value json_loads instance i = Some v.
Proof.
  revert m0. induction fields as [|i fields IH]; intros m0 Hrun Hk.
  - simpl in Hrun. injection Hrun as <-. by left.
  - simpl in Hrun.
    destruct (if field_is_json i && negb (is_list_or_dict
                (inst_getattr instance (field_name i)))
              then loads json_loads (inst_getattr instance (field_name i))
              else Some (inst_getattr instance (field_name i)))
      as [w|] eqn:Hw; simpl in Hrun; [|done].
    destruct (IH _ Hrun Hk) as [Hin|(j & Hj & Hname & Hval)].
    + destruct (decide (field_name i = k)) as [Heq|Hne].
      * subst k. rewrite lookup_insert_eq in Hin. injection Hin as <-.
        right. exists i. split; [left|]. by split.
      * rewrite lookup_insert_ne in Hin by done. by left.
    + right. exists j. split; [by right|]. by split.
Qed.

Lemma get_spec_fields_elem instance secret i :
  i ∈ get_spec_fields instance secret ↔
  i ∈ local_fields instance ∧ field_name i ≠ "asset_ptr" ∧
  field_is_encrypt i = secret.
Proof.
  unfold get_spec_fields. rewrite !list_elem_of_filter. tauto.
Qed.

(** C8: [auto_config] is the base map of the platform's two flags and
    [ansible_enabled = False] when the platform has no automation profile;
    with a profile it is the base map updated with the profile's fields,
    which win on every key they define, [ansible_enabled] included. *)
Theorem auto_config_base_or_profile a :
  match automation (platform a) with
  | None => auto_config model_to_dict a = base_config (platform a)
  | Some profile =>
      auto_config model_to_dict a
      = model_to_dict profile ∪ base_config (platform a) ∧
      ∀ k, auto_config model_to_dict a !! k
           = match model_to_dict profile !! k with
             | Some v => Some v
             | None => base_config (platform a) !! k
             end
  end.
Proof.
  unfold auto_config, base_config, dict_update.
  destruct (automation (platform a)) as [profile|]; [|done].
  split; [done|]. intros k. rewrite lookup_union.
  by destruct (model_to_dict profile !! k), (_ !! k).
Qed.

(** C6: [info] merges the gathered map, then the custom map, then the
    structured fields, and on every key the highest layer that defines it
    gives the value: the structured fields first, the custom map when they
    do not have the key, the gathered map when neither has it.  [info]
    fails only when reading the structured fields fails. *)
Theorem info_layer_precedence a :
  match spec_info json_loads a with
  | Some s =>
      ∃ m, info json_loads a = Some m ∧
           m = s ∪ (layer (custom_info a) ∪ layer (gathered_info a)) ∧
           ∀ k, (is_Some (s !! k) → m !! k = s !! k) ∧
                (s !! k = None → is_Some (layer (custom_info a) !! k) →
                 m !! k = layer (custom_info a) !! k) ∧
                (s !! k = None → layer (custom_info a) !! k = None →
                 m !! k = layer (gathered_info a) !! k)
  | None => info json_loads a = None
  end.
Proof.
  rewrite info_unfold.
  destruct (spec_info json_loads a) as [s|]; [|done].
  eexists. split; [done|]. split; [done|].
  intros k. rewrite !lookup_union.
  destruct (s !! k) as [vs|], (layer (custom_info a) !! k) as [vc|],
    (layer (gathered_info a) !! k) as [vg|]; simpl;
    repeat split; intros; try done; by destruct select (is_Some None).
Qed.

(** C1, as the code has it: for an asset without a category extension
    instance the structured fields are the empty map, and [info] is the
    custom map over the gathered map; it is the empty map exactly when
    these two layers are empty. *)
Theorem info_without_extension a :
  category_instance a = None →
  spec_info json_loads a = Some ∅ ∧
  info json_loads a
  = Some (layer (custom_info a) ∪ layer (gathered_info a)) ∧
  (info json_loads a = Some ∅ ↔
   layer (gathered_info a) = ∅ ∧ layer (custom_info a) = ∅).
Proof.
  intros Hnone.
  assert (spec_info json_loads a = Some ∅) as Hspec
    by (unfold spec_info; by rewrite Hnone).
  split; [done|].
  rewrite info_unfold, Hspec. simpl. rewrite (left_id_L ∅ (∪)).
  split; [done|]. split.
  - intros [= Hempty]. apply map_positive_l in Hempty as Hc.
    rewrite Hc, (left_id_L ∅ (∪)) in Hempty. by split.
  - intros [-> ->]. by rewrite (left_id_L ∅ (∪)).
Qed.

(** C5: every key of [secret_info] is the name of a local field of the
    category extension instance that is an [EncryptMixin] field, with that
    field's value; and [secret_info] reads the platform and the extension
    instances only, so assets that differ in nothing but their gathered and
    custom maps have the same [secret_info]. *)
Theorem secret_info_encrypted_fields_only a :
  (∀ m k v,
     secret_info json_loads a = Some m → m !! k = Some v →
     ∃ instance i,
       category_instance a = Some instance ∧
       i ∈ local_fields instance ∧ field_name i = k ∧
       field_is_encrypt i = true ∧
       field_value json_loads instance i = Some v) ∧
  (∀ gathered custom,
     secret_info json_loads (with_layers a gathered custom)
     = secret_info json_loads a) ∧
  (∀ a', platform a' = platform a → extensions a' = extensions a →
         secret_info json_loads a' = secret_info json_loads a).
Proof.
  split; [|split].
  - intros m k v Hsecret Hk. unfold secret_info in Hsecret.
    destruct (category_instance a) as [instance|] eqn:Hinst.
    + unfold get_spec_values in Hsecret.
      destruct (get_spec_values_from_lookup _ _ _ _ _ _ Hsecret Hk)
        as [Hempty|(i & Hi & Hname & Hval)].
      * by rewrite lookup_empty in Hempty.
      * apply get_spec_fields_elem in Hi as (Hin & _ & Henc).
        by exists instance, i.
    + injection Hsecret as <-. by rewrite lookup_empty in Hk.
  - done.
  - intros a' Hp He. unfold secret_info, category_instance, category.
    by rewrite Hp, He.
Qed.

End AssetInfoAggregator.

Section NodeHierarchy.

Context {Automation : Type}.
Variable get_ancestor_keys : Node -> bool -> list string.
Variable org_root : list Node -> Node.
Implicit Types (db : @DB Automation) (a b : @Asset Automation) (n : Node).

(** A filter that no row passes returns no row. *)
Lemma filter_none {A} (P : A → Prop) `{!∀ x, Decision (P x)} (l : list A) :
  (∀ x, x ∈ l → ¬ P x) → filter P l = [].
Proof.
  induction l as [|x l IH]; intros Hno; [done|].
  rewrite filter_cons, decide_False by (apply Hno; left).
  apply IH. intros y Hy. apply Hno. by right.
Qed.

(** In a table whose ids are distinct, the rows with the id of a stored row
    are that row alone. *)
Lemma filter_by_id_singleton (table : list Node) (r : Node) :
  NoDup (node_id <$> table) → r ∈ table →
  filter (fun n => node_id n = node_id r) table = [r].
Proof.
  induction table as [|x table IH]; intros Hnd Hin; [by inversion Hin|].
  rewrite fmap_cons in Hnd. apply NoDup_cons in Hnd as [Hx Hnd].
  rewrite filter_cons. apply elem_of_cons in Hin as [->|Hin].
  - rewrite decide_True by done. f_equal.
    apply filter_none. intros y Hy Heq.
    apply Hx. rewrite <- Heq. by apply list_elem_of_fmap_2.
  - rewrite decide_False; [by apply IH|].
    intros Heq. apply Hx. rewrite Heq. by apply list_elem_of_fmap_2.
Qed.

(** The keys gathered over a list of nodes, from any starting set. *)
Lemma elem_of_foldl_ancestor_keys (nodes : list Node) (acc : gset string)
    (k : string) :
  k ∈ foldl (fun node_keys node =>
               node_keys ∪ list_to_set (get_ancestor_keys node true))
            acc nodes
  ↔ k ∈ acc ∨ ∃ n, n ∈ nodes ∧ k ∈ get_ancestor_keys n true.
Proof.
  revert acc. induction nodes as [|x nodes IH]; intros acc; simpl.
  - set_solver.
  - rewrite IH. set_solver.
Qed.

(** The keys gathered over a list of assets, from any starting set. *)
Lemma elem_of_foldl_asset_keys db (assets : list Asset) (acc : gset string)
    (k : string) :
  k ∈ foldl (fun node_keys asset =>
               node_keys ∪ get_all_node_keys get_ancestor_keys org_root db asset)
            acc assets
  ↔ k ∈ acc ∨
    ∃ a, a ∈ assets ∧ k ∈ get_all_node_keys get_ancestor_keys org_root db a.
Proof.
  revert acc. induction assets as [|x assets IH]; intros acc; simpl.
  - set_solver.
  - rewrite IH. set_solver.
Qed.

(** The batched lookup returns the nodes of the per-asset lookups, for any
    list of assets. *)
Lemma elem_of_get_all_nodes_for_assets db (assets : list Asset) n :
  n ∈ get_all_nodes_for_assets get_ancestor_keys org_root db assets
  ↔ ∃ a, a ∈ assets ∧ n ∈ get_all_nodes get_ancestor_keys org_root db a.
Proof.
  unfold get_all_nodes_for_assets, get_all_nodes.
  rewrite list_elem_of_filter, elem_of_foldl_asset_keys.
  setoid_rewrite elem_of_remove_dups.
  setoid_rewrite list_elem_of_filter.
  set_solver.
Qed.

(** C7: [get_nodes] returns the asset's own nodes when it has some, and
    otherwise the organization root alone; it is never empty.  The node
    table has distinct ids (the primary key) and [Node.org_root()] returns
    a row of it. *)
Theorem get_nodes_own_or_org_root db a :
  NoDup (node_id <$> node_table db) →
  org_root (node_table db) ∈ node_table db →
  (nodes_all db a ≠ [] → get_nodes org_root db a = nodes_all db a) ∧
  (nodes_all db a = [] →
   get_nodes org_root db a = [org_root (node_table db)]) ∧
  get_nodes org_root db a ≠ [].
Proof.
  intros Hnd Hroot. unfold get_nodes.
  destruct (nodes_all db a) as [|n nodes] eqn:Hnodes.
  - rewrite filter_by_id_singleton by done. by repeat split.
  - by repeat split.
Qed.

(** C4: the nodes returned for the two assets [a] and [b] together are the
    nodes returned for [a] and the nodes returned for [b]. *)
Theorem get_all_nodes_for_assets_pair db a b n :
  n ∈ get_all_nodes_for_assets get_ancestor_keys org_root db [a; b]
  ↔ n ∈ get_all_nodes get_ancestor_keys org_root db a ∨
    n ∈ get_all_nodes get_ancestor_keys org_root db b.
Proof.
  rewrite elem_of_get_all_nodes_for_assets. split.
  - intros (x & Hx & Hn).
    apply elem_of_cons in Hx as [->|Hx]; [by left|].
    apply list_elem_of_singleton in Hx as ->. by right.
  - intros [Hn|Hn]; [exists a|exists b]; split; try done.
    + by left.
    + right. by left.
Qed.

End NodeHierarchy.

Section TargetPort.

Context {Automation : Type}.
Implicit Types (db : @DB Automation) (a : @Asset Automation).
Implicit Types (p q : @Protocol Automation).

(** The step of [first]: keep the row with the smaller primary key. *)
Local Abbreviation keep_least :=
  (fun best p =>
     match best with
     | None => Some p
     | Some b => if Z.ltb (proto_id p) (proto_id b) then Some p else Some b
     end).

(** Started from a row [b], the scan ends on [b] or on a later row, whose
    primary key is at most that of [b] and of every row scanned. *)
Lemma first_from_least (rows : list Protocol) (b : Protocol) :
  ∃ p, foldl keep_least (Some b) rows = Some p ∧
       (p = b ∨ p ∈ rows) ∧
       proto_id p ≤ proto_id b ∧
       ∀ q, q ∈ rows → proto_id p ≤ proto_id q.
Proof.
  revert b. induction rows as [|x rows IH]; intros b; simpl.
  - exists b. repeat split; [by left|lia|]. intros q Hq. by inversion Hq.
  - destruct (Z.ltb_spec (proto_id x) (proto_id b)) as [Hlt|Hge].
    + destruct (IH x) as (p & Hrun & Hin & Hle & Hmin).
      exists p. repeat split; [done| |lia|].
      * right. destruct Hin as [->|Hin]; [left|by right].
      * intros q Hq. apply elem_of_cons in Hq as [->|Hq]; [done|by apply Hmin].
    + destruct (IH b) as (p & Hrun & Hin & Hle & Hmin).
      exists p. repeat split; [done| |done|].
      * destruct Hin as [->|Hin]; [by left|right; by right].
      * intros q Hq. apply elem_of_cons in Hq as [->|Hq]; [lia|by apply Hmin].
Qed.

(** [first] finds nothing in an empty result only, and otherwise a row of
    the result with the least primary key. *)
Lemma first_spec (rows : list Protocol) :
  match first rows with
  | None => rows = []
  | Some p => p ∈ rows ∧ ∀ q, q ∈ rows → proto_id p ≤ proto_id q
  end.
Proof.
  unfold first. destruct rows as [|x rows]; simpl; [done|].
  destruct (first_from_least rows x) as (p & -> & Hin & Hle & Hmin).
  split.
  - destruct Hin as [->|Hin]; [left|by right].
  - intros q Hq. apply elem_of_cons in Hq as [->|Hq]; [done|by apply Hmin].
Qed.

(** C9: [get_target_ssh_port] is 22 when the asset has no protocol named
    ssh; when it has one, it is the port of a protocol of the asset named
    ssh, the one with the least primary key. *)
Theorem get_target_ssh_port_ssh_or_22 db a :
  ((∀ p, p ∈ protocols_all db a → proto_name p ≠ "ssh") →
   get_target_ssh_port db a = 22) ∧
  ((∃ p, p ∈ protocols_all db a ∧ proto_name p = "ssh") →
   ∃ p, p ∈ protocols_all db a ∧ proto_name p = "ssh" ∧
        get_target_ssh_port db a = proto_port p ∧
        ∀ q, q ∈ protocols_all db a → proto_name q = "ssh" →
             proto_id p ≤ proto_id q).
Proof.
  unfold get_target_ssh_port.
  pose proof (first_spec (filter (fun p => proto_name p = "ssh")
                                 (protocols_all db a))) as Hfirst.
  destruct (first _) as [p|]; split.
  - intros Hno. destruct Hfirst as [Hp _].
    apply list_elem_of_filter in Hp as [Hname Hp]. by destruct (Hno p Hp).
  - intros _. destruct Hfirst as [Hp Hmin].
    apply list_elem_of_filter in Hp as [Hname Hp].
    exists p. repeat split; try done.
    intros q Hq Hqname. apply Hmin. by apply list_elem_of_filter.
  - done.
  - intros (p & Hp & Hname).
    assert (p ∈ filter (fun p => proto_name p = "ssh") (protocols_all db a))
      as Hin by by apply list_elem_of_filter.
    rewrite Hfirst in Hin. by inversion Hin.
Qed.

End TargetPort.

Section SecretTypeClassifier.

Context {Automation : Type}.
Variable protocol_secret_types : gmap string (list string).
Implicit Types (db : @DB Automation) (a : @Asset Automation).
Implicit Types (mapp : gmap string (gset string)).

(** The secret types a row of the joined query contributes. *)
Local Abbreviation row_types protocol :=
  (list_to_set (default [] (protocol ≫= (protocol_secret_types !!.)))
   : gset string).

(** The loop body of [get_secret_type_assets]. *)
Local Abbreviation add_row :=
  (fun mapp '(asset_id, protocol) =>
     <[asset_id := default ∅ (mapp !! asset_id) ∪ row_types protocol]> mapp).

(** Filters that agree on the rows of a list select the same rows. *)
Lemma filter_ext_elem {A} (P Q : A → Prop)
    `{!∀ x, Decision (P x)} `{!∀ x, Decision (Q x)} (l : list A) :
  (∀ x, x ∈ l → P x ↔ Q x) → filter P l = filter Q l.
Proof.
  induction l as [|x l IH]; intros Hext; [done|].
  rewrite !filter_cons, IH by (intros y Hy; apply Hext; by right).
  assert (P x ↔ Q x) as Hx by (apply Hext; left).
  destruct (decide (P x)), (decide (Q x)); tauto.
Qed.

(** The protocols of an asset are found by its id alone. *)
Lemma protocols_all_by_id db a a' :
  asset_id a' = asset_id a → protocols_all db a' = protocols_all db a.
Proof. intros Hid. unfold protocols_all. by rewrite Hid. Qed.

(** After the loop, the set stored for an id holds what it held before and
    what the rows of that id contribute. *)
Lemma elem_of_foldl_add_row (rows : list (string * option string)) mapp
    (i st : string) :
  st ∈ default ∅ (foldl add_row mapp rows !! i)
  ↔ st ∈ default ∅ (mapp !! i) ∨
    ∃ protocol, (i, protocol) ∈ rows ∧ st ∈ row_types protocol.
Proof.
  revert mapp. induction rows as [|[j o] rows IH]; intros mapp; simpl.
  - split; [by left|]. intros [H|(o & Ho & _)]; [done|by inversion Ho].
  - rewrite IH. destruct (decide (j = i)) as [->|Hne].
    + rewrite lookup_insert_eq. simpl. rewrite elem_of_union. split.
      * intros [[H|H]|(o' & Ho' & H)]; [by left| |].
        -- right. exists o. split; [left|done].
        -- right. exists o'. split; [by right|done].
      * intros [H|(o' & Ho' & H)]; [left; by left|].
        apply elem_of_cons in Ho' as [[= ->]|Ho']; [left; by right|].
        right. by exists o'.
    + rewrite lookup_insert_ne by done. split.
      * intros [H|(o' & Ho' & H)]; [by left|].
        right. exists o'. split; [by right|done].
      * intros [H|(o' & Ho' & H)]; [by left|].
        apply elem_of_cons in Ho' as [[= -> ->]|Ho']; [done|].
        right. by exists o'.
Qed.

(** The rows of the joined query. *)
Lemma elem_of_values_list db (assets : list Asset) (i : string)
    (protocol : option string) :
  (i, protocol) ∈ values_list_id_protocols_name db assets
  ↔ ∃ a, a ∈ assets ∧ asset_id a = i ∧
         (protocols_all db a = [] ∧ protocol = None ∨
          ∃ p, p ∈ protocols_all db a ∧ protocol = Some (proto_name p)).
Proof.
  unfold values_list_id_protocols_name. rewrite list_elem_of_bind. split.
  - intros (a & Hrow & Ha). exists a. split; [done|].
    destruct (protocols_all db a) as [|p ps].
    + apply list_elem_of_singleton in Hrow as [= -> ->].
      split; [done|]. by left.
    + apply list_elem_of_fmap in Hrow as (q & [= -> ->] & Hq).
      split; [done|]. right. by exists q.
  - intros (a & Ha & <- & [[Hnil ->]|(p & Hp & ->)]);
      exists a; (split; [|done]).
    + rewrite Hnil. left.
    + destruct (protocols_all db a) as [|q ps]; [by inversion Hp|].
      apply list_elem_of_fmap. by exists p.
Qed.

Lemma elem_of_asset_secret_types db a (st : string) :
  st ∈ asset_secret_types protocol_secret_types db a
  ↔ ∃ p, p ∈ protocols_all db a ∧
         st ∈ default [] (protocol_secret_types !! proto_name p).
Proof.
  unfold asset_secret_types. rewrite elem_of_union_list. split.
  - intros (X & HX & Hst).
    apply list_elem_of_fmap in HX as (p & -> & Hp).
    exists p. split; [done|]. by apply elem_of_list_to_set in Hst.
  - intros (p & Hp & Hst).
    exists (list_to_set (default [] (protocol_secret_types !! proto_name p))).
    split; [|by apply elem_of_list_to_set].
    apply list_elem_of_fmap. by exists p.
Qed.

(** For an asset of the query, the set the loop stores under its id is the
    union of the table's secret types over its protocols. *)
Lemma stored_secret_types db (assets : list Asset) a (st : string) :
  a ∈ assets →
  st ∈ default ∅ (foldl add_row ∅ (values_list_id_protocols_name db assets)
                    !! asset_id a)
  ↔ st ∈ asset_secret_types protocol_secret_types db a.
Proof.
  intros Ha.
  rewrite elem_of_foldl_add_row, elem_of_asset_secret_types, lookup_empty.
  simpl. split.
  - intros [H|(o & Hrow & Hst)]; [by apply not_elem_of_empty in H|].
    apply elem_of_values_list in Hrow
      as (a' & _ & Hid & [[_ ->]|(p & Hp & ->)]).
    + simpl in Hst. by apply not_elem_of_empty in Hst.
    + rewrite (protocols_all_by_id _ _ _ Hid) in Hp.
      exists p. split; [done|]. by apply elem_of_list_to_set in Hst.
  - intros (p & Hp & Hst). right. exists (Some (proto_name p)). split.
    + apply elem_of_values_list. exists a. repeat split; try done.
      right. by exists p.
    + by apply elem_of_list_to_set.
Qed.

(** C3: [get_secret_type_assets] returns, in table order, exactly the
    assets with one of the given ids for which the union, over the names of
    their protocols, of the static table's secret types contains the given
    secret type. *)
Theorem get_secret_type_assets_exact db (asset_ids : list string)
    (secret_type : string) :
  get_secret_type_assets protocol_secret_types db asset_ids secret_type
  = filter
      (fun a => secret_type ∈ asset_secret_types protocol_secret_types db a)
      (filter (fun a => asset_id a ∈ asset_ids) (asset_table db)) ∧
  ∀ a, a ∈ get_secret_type_assets protocol_secret_types db asset_ids
             secret_type
       ↔ a ∈ asset_table db ∧ asset_id a ∈ asset_ids ∧
         ∃ p types,
           p ∈ protocol_table db ∧
           asset_id (proto_asset p) = asset_id a ∧
           protocol_secret_types !! proto_name p = Some types ∧
           secret_type ∈ types.
Proof.
  assert (get_secret_type_assets protocol_secret_types db asset_ids
            secret_type
          = filter
              (fun a =>
                 secret_type ∈ asset_secret_types protocol_secret_types db a)
              (filter (fun a => asset_id a ∈ asset_ids) (asset_table db)))
    as Heq.
  { unfold get_secret_type_assets. apply filter_ext_elem.
    intros a Ha. by apply stored_secret_types. }
  split; [done|]. intros a.
  rewrite Heq, !list_elem_of_filter, elem_of_asset_secret_types. split.
  - intros ((p & Hp & Hst) & Hid & Ha). repeat split; try done.
    apply list_elem_of_filter in Hp as [Hown Hp].
    destruct (protocol_secret_types !! proto_name p) as [types|] eqn:Ht;
      [|by inversion Hst].
    by exists p, types.
  - intros (Ha & Hid & p & types & Hp & Hown & Ht & Hst).
    repeat split; try done. exists p. split.
    + by apply list_elem_of_filter.
    + by rewrite Ht.
Qed.

End SecretTypeClassifier.

(** * Further properties of the resolvers and queries *)

Section ProtocolVisibility.

Context {Automation : Type}.
Implicit Types (p : @Protocol Automation) (e : PlatformProtocol).

Lemma values_row_public e :
  values_row e !! "public" = Some (PBool (pp_public e)).
Proof.
  unfold values_row.
  rewrite lookup_insert_ne by done. by rewrite lookup_insert_eq.
Qed.

(** X1: [public] is the flag declared by the first catalog entry of the
    owning asset's platform that has the protocol's name, and [True] when
    the catalog has no such entry; the per-instance override of [setting]
    has no part in it. *)
Theorem public_first_entry_or_true p :
  public p
  = match filter (fun e => pp_name e = proto_name p)
                 (platform_protocols (platform (proto_asset p))) with
    | e :: _ => PBool (pp_public e)
    | [] => PBool true
    end ∧
  ∀ v : pyval, public (set_setting p v) = public p.
Proof.
  split; [|done].
  unfold public, asset_platform_protocol. rewrite filter_values_rows.
  destruct (filter _ (platform_protocols _)) as [|e rest]; simpl.
  - by rewrite lookup_empty.
  - by rewrite values_row_public.
Qed.

(** X2: assigning to a protocol the setting it resolves to leaves the
    resolved setting as it was, and of two assignments in a row the second
    alone counts. *)
Theorem setting_write_back p (v w : pyval) :
  setting (set_setting p (setting p)) = setting p ∧
  set_setting (set_setting p v) w = set_setting p w ∧
  setting (set_setting (set_setting p v) w) = setting (set_setting p w).
Proof.
  split; [|by split].
  unfold setting at 1. simpl.
  destruct (is_not_None (setting p)) eqn:Hres; [done|].
  unfold setting in *.
  destruct (is_not_None (_setting p)) eqn:Hov; [by rewrite Hov in Hres|done].
Qed.

End ProtocolVisibility.

Section SpecValues.

Context {Automation : Type}.
Variable json_loads : string -> option pyval.
Implicit Types (a : @Asset Automation) (m s t : gmap string pyval).
Implicit Types (instance : Instance) (i : Field).

(** The loop of [get_spec_values] fails exactly when the value of one of
    the fields cannot be read. *)
Lemma get_spec_values_from_None instance (fields : list Field) m0 :
  get_spec_values_from json_loads instance fields m0 = None
  ↔ ∃ i, i ∈ fields ∧ field_value json_loads instance i = None.
Proof.
  revert m0. induction fields as [|i fields IH]; intros m0; simpl.
  - split; [done|]. intros (i & Hi & _). by inversion Hi.
  - fold (field_value json_loads instance i).
    destruct (field_value json_loads instance i) as [w|] eqn:Hw; simpl.
    + rewrite IH. split.
      * intros (j & Hj & Hnone). exists j. split; [by right|done].
      * intros (j & Hj & Hnone).
        apply elem_of_cons in Hj as [->|Hj]; [congruence|by exists j].
    + split; [|done]. intros _. exists i. split; [left|done].
Qed.

(** When the loop succeeds, the keys of its result are the keys it started
    with and the names of the fields. *)
Lemma get_spec_values_from_dom instance (fields : list Field) m0 m :
  get_spec_values_from json_loads instance fields m0 = Some m →
  dom m = dom m0 ∪ list_to_set (field_name <$> fields).
Proof.
  revert m0. induction fields as [|i fields IH]; intros m0 Hrun;
    simpl in Hrun.
  - injection Hrun as <-. set_solver.
  - fold (field_value json_loads instance i) in Hrun.
    destruct (field_value json_loads instance i) as [w|]; [|done].
    simpl in Hrun. rewrite (IH _ Hrun), dom_insert_L, fmap_cons. set_solver.
Qed.

(** With distinct field names, the loop stores each field's value under the
    field's name and leaves every other key as it was. *)
Lemma get_spec_values_from_fields instance (fields : list Field) m0 m :
  NoDup (field_name <$> fields) →
  get_spec_values_from json_loads instance fields m0 = Some m →
  (∀ i, i ∈ fields →
        m !! field_name i = field_value json_loads instance i) ∧
  (∀ k, k ∉ field_name <$> fields → m !! k = m0 !! k).
Proof.
  revert m0. induction fields as [|i fields IH]; intros m0 Hnd Hrun;
    simpl in Hrun.
  - injection Hrun as <-. split; [|done]. intros i Hi. by inversion Hi.
  - fold (field_value json_loads instance i) in Hrun.
    destruct (field_value json_loads instance i) as [w|] eqn:Hw; [|done].
    simpl in Hrun. rewrite fmap_cons in Hnd.
    apply NoDup_cons in Hnd as [Hfresh Hnd].
    destruct (IH _ Hnd Hrun) as [Hfields Hother]. split.
    + intros j Hj. apply elem_of_cons in Hj as [->|Hj]; [|by apply Hfields].
      rewrite (Hother _ Hfresh), lookup_insert_eq. done.
    + intros k Hk. rewrite fmap_cons in Hk.
      apply not_elem_of_cons in Hk as [Hne Hk].
      rewrite (Hother _ Hk). by rewrite lookup_insert_ne.
Qed.

(** In a list whose images under [f] are distinct, rows with the same image
    are the same row. *)
Lemma NoDup_fmap_same {A B} (f : A → B) (l : list A) (x y : A) :
  NoDup (f <$> l) → x ∈ l → y ∈ l → f x = f y → x = y.
Proof.
  induction l as [|z l IH]; intros Hnd Hx Hy Heq; [by inversion Hx|].
  rewrite fmap_cons in Hnd. apply NoDup_cons in Hnd as [Hz Hnd].
  apply elem_of_cons in Hx as [->|Hx]; apply elem_of_cons in Hy as [->|Hy].
  - done.
  - destruct Hz. rewrite Heq. by apply list_elem_of_fmap_2.
  - destruct Hz. rewrite <- Heq. by apply list_elem_of_fmap_2.
  - by apply IH.
Qed.

(** The keys of a returned [get_spec_values] are the names of its fields. *)
Lemma get_spec_values_key instance (fields : list Field) m (k : string) :
  get_spec_values json_loads instance fields = Some m →
  is_Some (m !! k) ↔ ∃ i, i ∈ fields ∧ field_name i = k.
Proof.
  intros Hrun. unfold get_spec_values in Hrun.
  rewrite <- elem_of_dom, (get_spec_values_from_dom _ _ _ _ Hrun).
  rewrite dom_empty_L, (left_id_L ∅ (∪)), elem_of_list_to_set.
  rewrite list_elem_of_fmap. naive_solver.
Qed.

(** X3: [get_spec_values] raises exactly when one of the fields is a JSON
    field whose attribute is neither a list nor a dict and is not a [str]
    that [json.loads] decodes; when it returns, the keys of the result are
    exactly the names of the fields. *)
Theorem get_spec_values_raises_or_names instance (fields : list Field) :
  (get_spec_values json_loads instance fields = None
   ↔ ∃ i, i ∈ fields ∧ field_is_json i = true ∧
          is_list_or_dict (inst_getattr instance (field_name i)) = false ∧
          loads json_loads (inst_getattr instance (field_name i)) = None) ∧
  (∀ m, get_spec_values json_loads instance fields = Some m →
        dom m = list_to_set (field_name <$> fields)).
Proof.
  unfold get_spec_values. split.
  - rewrite get_spec_values_from_None. split.
    + intros (i & Hi & Hnone). exists i. split; [done|].
      unfold field_value in Hnone.
      destruct (field_is_json i),
        (is_list_or_dict (inst_getattr instance (field_name i)));
        simpl in Hnone; by try discriminate.
    + intros (i & Hi & Hjson & Hnative & Hloads). exists i. split; [done|].
      unfold field_value. by rewrite Hjson, Hnative.
  - intros m Hrun. rewrite (get_spec_values_from_dom _ _ _ _ Hrun).
    rewrite dom_empty_L. set_solver.
Qed.

(** X4: when the names of the fields are distinct and [get_spec_values]
    returns, each field's name maps to the attribute itself for a field
    that is not a JSON field or whose attribute is a list or a dict, and to
    the decoded attribute otherwise. *)
Theorem get_spec_values_stores_each_field instance (fields : list Field) m :
  NoDup (field_name <$> fields) →
  get_spec_values json_loads instance fields = Some m →
  ∀ i, i ∈ fields →
    let v := inst_getattr instance (field_name i) in
    (field_is_json i = false ∨ is_list_or_dict v = true →
     m !! field_name i = Some v) ∧
    (field_is_json i = true → is_list_or_dict v = false →
     m !! field_name i = loads json_loads v).
Proof.
  intros Hnd Hrun i Hi. simpl.
  destruct (get_spec_values_from_fields _ _ _ _ Hnd Hrun) as [Hfields _].
  rewrite (Hfields i Hi). unfold field_value. split.
  - intros [->| ->]; [done|]. by rewrite andb_false_r.
  - by intros -> ->.
Qed.

(** X5: [get_spec_fields] splits the local fields other than [asset_ptr]
    into the plain ones and the encrypted ones, each field in one part;
    hence, with distinct field names, [spec_info] and [secret_info] share no
    key, neither has the key [asset_ptr], and every other field name is a
    key of one of them. *)
Theorem spec_info_secret_info_split a instance s t :
  category_instance a = Some instance →
  NoDup (field_name <$> local_fields instance) →
  spec_info json_loads a = Some s →
  secret_info json_loads a = Some t →
  (∀ i, i ∈ local_fields instance → field_name i ≠ "asset_ptr" →
        (i ∈ get_spec_fields instance false ∧
         (i ∉ get_spec_fields instance true) ∧
         is_Some (s !! field_name i)) ∨
        (i ∈ get_spec_fields instance true ∧
         (i ∉ get_spec_fields instance false) ∧
         is_Some (t !! field_name i))) ∧
  (∀ k, is_Some (s !! k) → t !! k = None) ∧
  s !! "asset_ptr" = None ∧ t !! "asset_ptr" = None.
Proof.
  intros Hinst Hnd Hs Ht. unfold spec_info in Hs. unfold secret_info in Ht.
  rewrite Hinst in Hs, Ht. simpl in Hs, Ht.
  pose proof (fun k => get_spec_values_key _ _ _ k Hs) as Hks.
  pose proof (fun k => get_spec_values_key _ _ _ k Ht) as Hkt.
  split; [|split; [|split]].
  - intros i Hi Hptr. destruct (field_is_encrypt i) eqn:Henc.
    + right. split; [by apply get_spec_fields_elem|]. split.
      * intros Hin. apply get_spec_fields_elem in Hin as (_ & _ & Hno).
        congruence.
      * apply Hkt. exists i. split; [by apply get_spec_fields_elem|done].
    + left. split; [by apply get_spec_fields_elem|]. split.
      * intros Hin. apply get_spec_fields_elem in Hin as (_ & _ & Hno).
        congruence.
      * apply Hks. exists i. split; [by apply get_spec_fields_elem|done].
  - intros k Hsk. apply eq_None_not_Some. intros Htk.
    apply Hks in Hsk as (i & Hi & Hik). apply Hkt in Htk as (j & Hj & Hjk).
    apply get_spec_fields_elem in Hi as (Hi & _ & Hplain).
    apply get_spec_fields_elem in Hj as (Hj & _ & Hsecret).
    assert (i = j) as ->
      by (apply (NoDup_fmap_same field_name (local_fields instance));
          congruence).
    congruence.
  - apply eq_None_not_Some. intros Hk.
    apply Hks in Hk as (i & Hi & Hik).
    by apply get_spec_fields_elem in Hi as (_ & Hptr & _).
  - apply eq_None_not_Some. intros Hk.
    apply Hkt in Hk as (i & Hi & Hik).
    by apply get_spec_fields_elem in Hi as (_ & Hptr & _).
Qed.

(** X15: with distinct field names, [info] gives under the name of an
    encrypted field only what the custom and gathered maps hold there: the
    value that [secret_info] reads is never merged in. *)
Theorem info_leaves_out_encrypted_fields a instance m i :
  category_instance a = Some instance →
  NoDup (field_name <$> local_fields instance) →
  info json_loads a = Some m →
  i ∈ local_fields instance →
  field_is_encrypt i = true →
  m !! field_name i
  = (layer (custom_info a) ∪ layer (gathered_info a)) !! field_name i.
Proof.
  intros Hinst Hnd Hinfo Hi Henc. rewrite info_unfold in Hinfo.
  destruct (spec_info json_loads a) as [s|] eqn:Hs; [|done].
  simpl in Hinfo. injection Hinfo as <-.
  apply lookup_union_r, eq_None_not_Some. intros Hk.
  unfold spec_info in Hs. rewrite Hinst in Hs. simpl in Hs.
  apply (get_spec_values_key _ _ _ _ Hs) in Hk as (j & Hj & Hname).
  apply get_spec_fields_elem in Hj as (Hj & _ & Hplain).
  assert (j = i) as ->
    by by apply (NoDup_fmap_same field_name (local_fields instance)).
  congruence.
Qed.

End SpecValues.

Section AssetState.

Context {Automation : Type}.
Variable model_to_dict : Automation -> gmap string pyval.
Implicit Types (a : @Asset Automation) (qs : list (@Asset Automation)).

(** X6: whatever the automation profile, [auto_config] has the three keys
    of the base map; its keys are these and the keys of the profile. *)
Theorem auto_config_keys a :
  dom (auto_config model_to_dict a)
  = {[ "su_enabled"; "domain_enabled"; "ansible_enabled" ]}
    ∪ match automation (platform a) with
      | Some profile => dom (model_to_dict profile)
      | None => ∅
      end.
Proof.
  unfold auto_config, dict_update.
  destruct (automation (platform a)) as [profile|].
  - rewrite dom_union_L, !dom_insert_L, dom_singleton_L. set_solver.
  - rewrite !dom_insert_L, dom_singleton_L. set_solver.
Qed.

(** X7: [valid] keeps, in their order, exactly the assets whose [is_valid]
    property is [(True, '')]; every asset it drops has [is_valid] equal to
    [(False, ' inactive')]; applying it twice changes nothing more. *)
Theorem valid_keeps_is_valid qs a :
  (a ∈ valid qs ↔ a ∈ qs ∧ is_valid a = (true, "")) ∧
  (a ∉ valid qs → a ∈ qs → is_valid a = (false, " inactive")) ∧
  valid qs `sublist_of` qs ∧
  valid (valid qs) = valid qs.
Proof.
  unfold valid, active. split; [split|split; [|split]].
  - intros [Hact Hin]%list_elem_of_filter. split; [done|].
    unfold is_valid. by rewrite Hact.
  - intros [Hin Hvalid]. apply list_elem_of_filter. split; [|done].
    unfold is_valid in Hvalid. by destruct (is_active a).
  - intros Hout Hin. unfold is_valid.
    destruct (is_active a) eqn:Hact; [|done].
    destruct Hout. by apply list_elem_of_filter.
  - apply sublist_filter.
  - rewrite list_filter_filter. apply list_filter_iff. tauto.
Qed.

End AssetState.

Section NodeClosure.

Context {Automation : Type}.
Variable get_ancestor_keys : Node -> bool -> list string.
Variable org_root : list Node -> Node.
Implicit Types (db : @DB Automation) (a b : @Asset Automation) (n d : Node).

Lemma elem_of_get_all_node_keys db a (k : string) :
  k ∈ get_all_node_keys get_ancestor_keys org_root db a
  ↔ ∃ d, d ∈ get_nodes org_root db a ∧ k ∈ get_ancestor_keys d true.
Proof.
  unfold get_all_node_keys.
  rewrite (elem_of_foldl_ancestor_keys get_ancestor_keys org_root).
  split; [|by right]. intros [H|H]; [|done]. by apply not_elem_of_empty in H.
Qed.

(** The direct nodes of an asset are rows of the node table. *)
Lemma get_nodes_stored db a d :
  d ∈ get_nodes org_root db a → d ∈ node_table db.
Proof.
  unfold get_nodes, nodes_all.
  destruct (filter _ (node_table db)) as [|x l] eqn:Hf.
  - by intros [_ Hd]%list_elem_of_filter.
  - intros Hd. rewrite <- Hf in Hd.
    by apply list_elem_of_filter in Hd as [_ Hd].
Qed.

(** X8: [get_all_nodes] returns, each once, exactly the rows of the node
    table whose key is an ancestor key (the node's own included, as
    [with_self=True] asks) of one of the asset's direct nodes; with
    [flat=True] it returns the set of the ids of these rows. *)
Theorem get_all_nodes_ancestors_of_direct db a :
  (∀ n, n ∈ get_all_nodes get_ancestor_keys org_root db a
        ↔ n ∈ node_table db ∧
          ∃ d, d ∈ get_nodes org_root db a ∧
               node_key n ∈ get_ancestor_keys d true) ∧
  NoDup (get_all_nodes get_ancestor_keys org_root db a) ∧
  (∀ i : string,
     i ∈ get_all_nodes_flat get_ancestor_keys org_root db a
     ↔ ∃ n, n ∈ get_all_nodes get_ancestor_keys org_root db a ∧
            node_id n = i).
Proof.
  split; [|split].
  - intros n. unfold get_all_nodes.
    rewrite elem_of_remove_dups, list_elem_of_filter.
    rewrite elem_of_get_all_node_keys. tauto.
  - apply NoDup_remove_dups.
  - intros i. unfold get_all_nodes_flat.
    rewrite elem_of_list_to_set, list_elem_of_fmap. naive_solver.
Qed.

(** X9: when the ancestor keys of each direct node of the asset include the
    node's own key, every direct node is among [get_all_nodes]. *)
Theorem get_all_nodes_includes_direct db a :
  Forall (fun d => node_key d ∈ get_ancestor_keys d true)
         (get_nodes org_root db a) →
  get_nodes org_root db a ⊆ get_all_nodes get_ancestor_keys org_root db a.
Proof.
  intros Hself d Hd. unfold get_all_nodes.
  apply elem_of_remove_dups, list_elem_of_filter. split.
  - apply elem_of_get_all_node_keys. exists d. split; [done|].
    by apply (proj1 (Forall_forall _ _) Hself).
  - by apply get_nodes_stored in Hd.
Qed.

(** X10: the batched lookup depends on the set of assets alone: lists with
    the same assets, in any order and with any repetition, give the same
    rows in the same order; and for no asset it returns no row. *)
Theorem get_all_nodes_for_assets_same_assets db
    (assets assets' : list Asset) :
  (∀ a, a ∈ assets ↔ a ∈ assets') →
  get_all_nodes_for_assets get_ancestor_keys org_root db assets
  = get_all_nodes_for_assets get_ancestor_keys org_root db assets' ∧
  get_all_nodes_for_assets get_ancestor_keys org_root db [] = [].
Proof.
  intros Hsame. split.
  - unfold get_all_nodes_for_assets. f_equal. apply list_filter_iff.
    intros n. rewrite !elem_of_foldl_asset_keys. set_solver.
  - unfold get_all_nodes_for_assets. simpl. apply filter_none.
    intros n _. set_solver.
Qed.

(** X11: an asset without nodes has the node keys and the nodes of an asset
    whose only node is the organization root.  The node table has distinct
    ids and [Node.org_root()] returns a row of it. *)
Theorem get_all_nodes_without_nodes db a b :
  NoDup (node_id <$> node_table db) →
  org_root (node_table db) ∈ node_table db →
  nodes_all db a = [] →
  nodes_all db b = [org_root (node_table db)] →
  get_all_node_keys get_ancestor_keys org_root db a
  = list_to_set (get_ancestor_keys (org_root (node_table db)) true) ∧
  get_all_node_keys get_ancestor_keys org_root db a
  = get_all_node_keys get_ancestor_keys org_root db b ∧
  get_all_nodes get_ancestor_keys org_root db a
  = get_all_nodes get_ancestor_keys org_root db b.
Proof.
  intros Hnd Hroot Ha Hb.
  assert (get_nodes org_root db a = [org_root (node_table db)]) as Hna.
  { unfold get_nodes. rewrite Ha. by apply filter_by_id_singleton. }
  assert (get_nodes org_root db b = [org_root (node_table db)]) as Hnb.
  { unfold get_nodes. by rewrite Hb. }
  unfold get_all_nodes, get_all_node_keys. rewrite Hna, Hnb. simpl.
  by rewrite (left_id_L ∅ (∪)).
Qed.

End NodeClosure.

Section ProtocolRows.

Context {Automation : Type}.
Variable protocol_secret_types : gmap string (list string).
Implicit Types (db : @DB Automation) (a : @Asset Automation).
Implicit Types (p q : @Protocol Automation).

(** X12: with distinct primary keys, the port [get_target_ssh_port] returns
    does not depend on the order of the protocol rows. *)
Theorem get_target_ssh_port_any_row_order db db' a :
  NoDup (proto_id <$> protocol_table db) →
  protocol_table db ≡ₚ protocol_table db' →
  get_target_ssh_port db a = get_target_ssh_port db' a.
Proof.
  intros Hnd Hperm. unfold get_target_ssh_port, protocols_all.
  set (ssh := fun p : Protocol => proto_name p = "ssh").
  set (own := fun p : Protocol => asset_id (proto_asset p) = asset_id a).
  assert (∀ p, p ∈ filter ssh (filter own (protocol_table db))
               ↔ p ∈ filter ssh (filter own (protocol_table db'))) as Hsame.
  { intros p. rewrite !list_elem_of_filter. by rewrite Hperm. }
  pose proof (first_spec (filter ssh (filter own (protocol_table db))))
    as Hl.
  pose proof (first_spec (filter ssh (filter own (protocol_table db'))))
    as Hr.
  destruct (first (filter ssh (filter own (protocol_table db))))
    as [p|], (first (filter ssh (filter own (protocol_table db'))))
    as [q|]; try done.
  - destruct Hl as [Hp Hpmin], Hr as [Hq Hqmin].
    assert (proto_id p = proto_id q) as Hid.
    { apply Z.le_antisymm.
      - apply Hpmin. by apply Hsame.
      - apply Hqmin. by apply Hsame. }
    f_equal. apply (NoDup_fmap_same proto_id (protocol_table db)); try done.
    + by apply list_elem_of_filter in Hp as [_ [_ Hp]%list_elem_of_filter].
    + apply Hsame in Hq.
      by apply list_elem_of_filter in Hq as [_ [_ Hq]%list_elem_of_filter].
  - destruct Hl as [Hp _]. apply Hsame in Hp. rewrite Hr in Hp.
    by inversion Hp.
  - destruct Hr as [Hq _]. apply Hsame in Hq. rewrite Hl in Hq.
    by inversion Hq.
Qed.

(** [get_secret_type_assets] as two filters of the asset table. *)
Lemma get_secret_type_assets_filters db (asset_ids : list string)
    (secret_type : string) :
  get_secret_type_assets protocol_secret_types db asset_ids secret_type
  = filter
      (fun a => secret_type ∈ asset_secret_types protocol_secret_types db a)
      (filter (fun a => asset_id a ∈ asset_ids) (asset_table db)).
Proof.
  unfold get_secret_type_assets. apply filter_ext_elem.
  intros a Ha. by apply stored_secret_types.
Qed.

(** The secret types of an asset are found by its id alone. *)
Lemma asset_secret_types_by_id db a a' :
  asset_id a' = asset_id a →
  asset_secret_types protocol_secret_types db a'
  = asset_secret_types protocol_secret_types db a.
Proof.
  intros Hid. unfold asset_secret_types.
  by rewrite (protocols_all_by_id db a a' Hid).
Qed.

(** X13: asking again with the ids of the assets [get_secret_type_assets]
    returned gives the same assets; the result is a sublist of the asset
    table; no id gives no asset, and so does a secret type that the static
    table lists for no protocol name. *)
Theorem get_secret_type_assets_stable db (asset_ids : list string)
    (secret_type : string) :
  let found :=
    get_secret_type_assets protocol_secret_types db asset_ids secret_type in
  get_secret_type_assets protocol_secret_types db (asset_id <$> found)
    secret_type = found ∧
  found `sublist_of` asset_table db ∧
  get_secret_type_assets protocol_secret_types db [] secret_type = [] ∧
  ((∀ name types, protocol_secret_types !! name = Some types →
                  secret_type ∉ types) →
   found = []).
Proof.
  simpl. rewrite !get_secret_type_assets_filters.
  split; [|split; [|split]].
  - rewrite !list_filter_filter. apply filter_ext_elem.
    intros a Ha. split.
    + intros [Hst (a' & Hid & Ha')%list_elem_of_fmap]. split; [done|].
      apply list_elem_of_filter in Ha' as [[_ Hin] _]. by rewrite Hid.
    + intros [Hst Hin]. split; [done|].
      apply list_elem_of_fmap. exists a. split; [done|].
      by apply list_elem_of_filter.
  - etrans; apply sublist_filter.
  - apply filter_none. intros a Ha.
    apply list_elem_of_filter in Ha as [Hin _]. by inversion Hin.
  - intros Hnone. apply filter_none. intros a _ Hst.
    apply elem_of_asset_secret_types in Hst as (p & _ & Hst).
    destruct (protocol_secret_types !! proto_name p) as [types|] eqn:Ht.
    + by apply (Hnone _ _ Ht).
    + by inversion Hst.
Qed.

End ProtocolRows.

Section PlatformGroups.

Context {Automation : Type}.
Variable platform_pk : @Platform Automation -> Z.
Implicit Types (a : @Asset Automation) (qs : list (@Asset Automation)).
Implicit Types (groups : list (@Platform Automation * list (@Asset Automation))).
Implicit Types (p : @Platform Automation) (k : Z).

Local Abbreviation key_of := (fun g : Platform * list Asset => platform_pk g.1).

(** The members under a key after one more asset is appended. *)
Lemma group_members_append groups a k :
  group_members platform_pk (groups_append platform_pk groups a) k
  = if decide (platform_pk (platform a) = k)
    then Some (default [] (group_members platform_pk groups k) ++ [a])%list
    else group_members platform_pk groups k.
Proof.
  induction groups as [|[p l] groups IH]; simpl.
  - by destruct (decide (platform_pk (platform a) = k)).
  - destruct (decide (platform_pk p = platform_pk (platform a))) as [Hp|Hp];
      simpl.
    + rewrite Hp. by destruct (decide (platform_pk (platform a) = k)).
    + rewrite IH.
      destruct (decide (platform_pk p = k)) as [Hk|Hk],
        (decide (platform_pk (platform a) = k)) as [Ha|Ha];
        try done; congruence.
Qed.

(** The keys after one more asset is appended: a new key comes last. *)
Lemma groups_append_keys groups a :
  key_of <$> groups_append platform_pk groups a
  = if decide (platform_pk (platform a) ∈ key_of <$> groups)
    then key_of <$> groups
    else ((key_of <$> groups) ++ [platform_pk (platform a)])%list.
Proof.
  induction groups as [|[p l] groups IH].
  - simpl groups_append. rewrite decide_False; [done|].
    rewrite fmap_nil. by intros H; inversion H.
  - simpl groups_append. rewrite (fmap_cons key_of (p, l) groups).
    destruct (decide (platform_pk p = platform_pk (platform a))) as [Hp|Hp].
    + rewrite decide_True; [done|]. simpl. rewrite Hp. left.
    + rewrite fmap_cons, IH.
      destruct (decide (platform_pk (platform a) ∈ key_of <$> groups))
        as [Hin|Hin].
      * rewrite decide_True; [done|]. by right.
      * rewrite decide_False; [done|].
        intros [Heq|H]%elem_of_cons; [simpl in Heq; congruence|done].
Qed.

(** A key after the append is the asset's platform or an earlier key. *)
Lemma groups_append_key groups a p (l : list Asset) :
  (p, l) ∈ groups_append platform_pk groups a →
  p = platform a ∨ ∃ l0, (p, l0) ∈ groups.
Proof.
  induction groups as [|[p' l'] groups IH]; simpl.
  - intros [= -> ->]%list_elem_of_singleton. by left.
  - destruct (decide (platform_pk p' = platform_pk (platform a))).
    + intros [[= -> ->]|Hin]%elem_of_cons; right.
      * exists l'. left.
      * exists l. by right.
    + intros [[= -> ->]|Hin]%elem_of_cons.
      * right. exists l'. left.
      * destruct (IH Hin) as [->|[l0 Hl0]]; [by left|].
        right. exists l0. by right.
Qed.

Lemma group_members_elem groups p (l : list Asset) :
  NoDup (key_of <$> groups) → (p, l) ∈ groups →
  group_members platform_pk groups (platform_pk p) = Some l.
Proof.
  induction groups as [|[p' l'] groups IH]; intros Hnd Hin;
    [by inversion Hin|].
  rewrite fmap_cons in Hnd. apply NoDup_cons in Hnd as [Hfresh Hnd]. simpl.
  apply elem_of_cons in Hin as [[= -> ->]|Hin].
  - by rewrite decide_True.
  - rewrite decide_False; [by apply IH|].
    intros Heq. apply Hfresh. simpl. rewrite Heq.
    by apply (list_elem_of_fmap_2 key_of _ (p, l)).
Qed.

Lemma group_members_Some groups k (l : list Asset) :
  group_members platform_pk groups k = Some l →
  ∃ p, (p, l) ∈ groups ∧ platform_pk p = k.
Proof.
  induction groups as [|[p' l'] groups IH]; simpl; [done|].
  destruct (decide (platform_pk p' = k)) as [Hk|Hk].
  - intros [= ->]. exists p'. split; [left|done].
  - intros (p & Hin & Hp)%IH. exists p. split; [by right|done].
Qed.

(** The members under a key are the assets of that key, in their order. *)
Lemma group_members_group_by_platform qs k :
  group_members platform_pk (group_by_platform platform_pk qs) k
  = match filter (fun a => platform_pk (platform a) = k) qs with
    | [] => None
    | members => Some members
    end.
Proof.
  unfold group_by_platform.
  induction qs as [|a qs IH] using rev_ind; [done|].
  rewrite foldl_snoc, group_members_append, IH, filter_app, filter_cons.
  rewrite filter_nil.
  destruct (decide (platform_pk (platform a) = k)).
  - by destruct (filter _ qs).
  - by rewrite app_nil_r.
Qed.

Lemma group_by_platform_keys_NoDup qs :
  NoDup (key_of <$> group_by_platform platform_pk qs).
Proof.
  unfold group_by_platform.
  induction qs as [|a qs IH] using rev_ind; [constructor|].
  rewrite foldl_snoc, groups_append_keys. case_decide as Hin; [done|].
  apply NoDup_app. split; [done|]. split; [|apply NoDup_singleton].
  intros x Hx ->%list_elem_of_singleton. by apply Hin.
Qed.

Lemma group_by_platform_key qs p (l : list Asset) :
  (p, l) ∈ group_by_platform platform_pk qs →
  ∃ a, a ∈ qs ∧ platform a = p.
Proof.
  unfold group_by_platform. revert l.
  induction qs as [|a qs IH] using rev_ind; intros l; [by inversion 1|].
  rewrite foldl_snoc. intros [->|[l0 Hl0]]%groups_append_key.
  - exists a. split; [|done]. apply elem_of_app. right. left.
  - destruct (IH _ Hl0) as (a' & Ha' & Hp). exists a'.
    split; [|done]. apply elem_of_app. by left.
Qed.

(** X14: [group_by_platform] partitions the assets by platform: the keys
    are platforms of assets of the queryset with distinct primary keys, the
    list under a key is not empty and holds, in the order of the queryset,
    exactly the assets of that platform, and every asset is in the list of
    its platform. *)
Theorem group_by_platform_partition qs :
  NoDup (key_of <$> group_by_platform platform_pk qs) ∧
  (∀ p (l : list Asset),
     (p, l) ∈ group_by_platform platform_pk qs →
     l = filter (fun a => platform_pk (platform a) = platform_pk p) qs ∧
     l ≠ [] ∧ ∃ a, a ∈ qs ∧ platform a = p) ∧
  (∀ a, a ∈ qs →
        ∃ p (l : list Asset),
          (p, l) ∈ group_by_platform platform_pk qs ∧
          platform_pk p = platform_pk (platform a) ∧ a ∈ l).
Proof.
  split; [apply group_by_platform_keys_NoDup|]. split.
  - intros p l Hin.
    pose proof (group_members_elem _ _ _
                  (group_by_platform_keys_NoDup qs) Hin) as Hl.
    rewrite group_members_group_by_platform in Hl.
    destruct (filter _ qs) as [|x rest] eqn:Hf; [done|].
    injection Hl as <-. split; [done|]. split; [done|].
    by apply group_by_platform_key in Hin.
  - intros a Ha.
    assert (a ∈ filter (fun a' => platform_pk (platform a')
                                  = platform_pk (platform a)) qs) as Hmem
      by by apply list_elem_of_filter.
    pose proof (group_members_group_by_platform qs
                  (platform_pk (platform a))) as Hl.
    destruct (filter _ qs) as [|x rest] eqn:Hf; [by inversion Hmem|].
    apply group_members_Some in Hl as (p & Hin & Hp).
    by exists p, (x :: rest).
Qed.

End PlatformGroups.

(** * The properties on the concrete inventory *)

Module Checks.

Import Examples.

(** The catalog's ssh setting is resolved for a protocol without override,
    and the override wins where one is set. *)
Example setting_of_ssh1 : setting ssh1 = PDict {[ "x" := PInt 1 ]}.
Proof. vm_compute. reflexivity. Qed.

Example setting_of_ssh2 : setting ssh2 = PDict {[ "y" := PInt 2 ]}.
Proof. vm_compute. reflexivity. Qed.

Example setting_of_rdp1 : setting rdp1 = PDict ∅.
Proof. vm_compute. reflexivity. Qed.

(** Of the two ssh protocols of [a1] the one with the least primary key
    gives the port; [a2] has no ssh protocol. *)
Example port_of_a1 : get_target_ssh_port db a1 = 2022.
Proof. vm_compute. reflexivity. Qed.

Example port_of_a2 : get_target_ssh_port db a2 = 22.
Proof. vm_compute. reflexivity. Qed.

(** [a1] has ssh, [a2] has rdp and vnc only. *)
Example password_assets :
  get_secret_type_assets secret_types_table db ["a1"; "a2"] "password" = [a1].
Proof. vm_compute. reflexivity. Qed.

(** The structured field wins on [k]; without an extension instance the
    custom value does. *)
Example info_of_a1 :
  info decode a1 = Some {[ "k" := PStr "s"; "disks" := PList [] ]}.
Proof. vm_compute. reflexivity. Qed.

Example info_of_a2 : info decode a2 = Some {[ "k" := PStr "c" ]}.
Proof. vm_compute. reflexivity. Qed.

Example secret_info_of_a1 :
  secret_info decode a1 = Some {[ "token" := PStr "t0" ]}.
Proof. vm_compute. reflexivity. Qed.

Example auto_config_of_a2 :
  auto_config fields_of a2
  = {[ "su_enabled" := PBool false; "domain_enabled" := PBool true;
       "ansible_enabled" := PBool true; "ping_enabled" := PBool true ]}.
Proof. vm_compute. reflexivity. Qed.

Example nodes_of_a2 : get_nodes the_root db a2 = [root].
Proof. vm_compute. reflexivity. Qed.

(** C1 fails as it is written: [a2] has no category extension instance and
    its [info] is not the empty map, it holds the custom value of [k]. *)
Lemma info_not_empty_without_extension :
  category_instance a2 = None ∧ info decode a2 ≠ Some ∅.
Proof.
  split; [reflexivity|]. intros Hempty.
  apply (f_equal (fun o => o ≫= (.!! "k"))) in Hempty.
  vm_compute in Hempty. discriminate Hempty.
Qed.

(** [info_without_extension] at [a2]. *)
Lemma info_without_extension_a2 :
  category_instance a2 = None ∧
  (spec_info decode a2 = Some ∅ ∧
   info decode a2
   = Some (layer (custom_info a2) ∪ layer (gathered_info a2)) ∧
   (info decode a2 = Some ∅ ↔
    layer (gathered_info a2) = ∅ ∧ layer (custom_info a2) = ∅)).
Proof.
  split; [reflexivity|].
  apply (info_without_extension decode a2). reflexivity.
Defined.

(** [get_nodes_own_or_org_root] at [a2], which has no node of its own. *)
Lemma get_nodes_own_or_org_root_a2 :
  NoDup (node_id <$> node_table db) ∧
  the_root (node_table db) ∈ node_table db ∧
  ((nodes_all db a2 ≠ [] → get_nodes the_root db a2 = nodes_all db a2) ∧
   (nodes_all db a2 = [] →
    get_nodes the_root db a2 = [the_root (node_table db)]) ∧
   get_nodes the_root db a2 ≠ []).
Proof.
  assert (NoDup (node_id <$> node_table db)) as Hnd
    by (apply (bool_decide_unpack _); vm_compute; exact I).
  assert (the_root (node_table db) ∈ node_table db) as Hroot
    by (apply (bool_decide_unpack _); vm_compute; exact I).
  split; [exact Hnd|]. split; [exact Hroot|].
  exact (get_nodes_own_or_org_root the_root db a2 Hnd Hroot).
Defined.

End Checks.

(** * The further properties on the concrete inventory *)

Module Instances.

Import Examples.

Example public_of_ssh1 : public ssh1 = PBool true.
Proof. vm_compute. reflexivity. Qed.

Example valid_assets : valid [a1; a2; a3] = [a1; a2].
Proof. vm_compute. reflexivity. Qed.

Example groups_of_assets :
  group_by_platform pk_of [a1; a2; a3]
  = [(linux, [a1; a3]); (linux_automated, [a2])].
Proof. vm_compute. reflexivity. Qed.

(** [get_spec_values_stores_each_field] at the JSON field [disks] of the
    host instance, whose attribute is the text of an empty list. *)
Lemma get_spec_values_stores_each_field_disks :
  let fields := [mkField "k" false false; mkField "disks" true false] in
  let m : gmap string pyval := {[ "k" := PStr "s"; "disks" := PList [] ]} in
  let i := mkField "disks" true false in
  NoDup (field_name <$> fields) ∧
  get_spec_values decode host fields = Some m ∧
  i ∈ fields ∧
  ((field_is_json i = false ∨
    is_list_or_dict (inst_getattr host (field_name i)) = true →
    m !! field_name i = Some (inst_getattr host (field_name i))) ∧
   (field_is_json i = true →
    is_list_or_dict (inst_getattr host (field_name i)) = false →
    m !! field_name i = loads decode (inst_getattr host (field_name i)))).
Proof.
  intros fields m i.
  assert (NoDup (field_name <$> fields)) as Hnd
    by (apply (bool_decide_unpack _); vm_compute; exact I).
  assert (get_spec_values decode host fields = Some m) as Hrun
    by (vm_compute; reflexivity).
  assert (i ∈ fields) as Hi by (right; left).
  split; [exact Hnd|]. split; [exact Hrun|]. split; [exact Hi|].
  exact (get_spec_values_stores_each_field decode host fields m Hnd Hrun
           i Hi).
Defined.

(** [spec_info_secret_info_split] at [a1] with its host instance. *)
Lemma spec_info_secret_info_split_a1 :
  let s : gmap string pyval := {[ "k" := PStr "s"; "disks" := PList [] ]} in
  let t : gmap string pyval := {[ "token" := PStr "t0" ]} in
  category_instance a1 = Some host ∧
  NoDup (field_name <$> local_fields host) ∧
  spec_info decode a1 = Some s ∧
  secret_info decode a1 = Some t ∧
  ((∀ i, i ∈ local_fields host → field_name i ≠ "asset_ptr" →
         (i ∈ get_spec_fields host false ∧
          (i ∉ get_spec_fields host true) ∧
          is_Some (s !! field_name i)) ∨
         (i ∈ get_spec_fields host true ∧
          (i ∉ get_spec_fields host false) ∧
          is_Some (t !! field_name i))) ∧
   (∀ k, is_Some (s !! k) → t !! k = None) ∧
   s !! "asset_ptr" = None ∧ t !! "asset_ptr" = None).
Proof.
  intros s t.
  assert (category_instance a1 = Some host) as Hinst
    by (vm_compute; reflexivity).
  assert (NoDup (field_name <$> local_fields host)) as Hnd
    by (apply (bool_decide_unpack _); vm_compute; exact I).
  assert (spec_info decode a1 = Some s) as Hs by (vm_compute; reflexivity).
  assert (secret_info decode a1 = Some t) as Ht by (vm_compute; reflexivity).
  split; [exact Hinst|]. split; [exact Hnd|].
  split; [exact Hs|]. split; [exact Ht|].
  exact (spec_info_secret_info_split decode a1 host s t Hinst Hnd Hs Ht).
Defined.

(** [info_leaves_out_encrypted_fields] at the field [token] of [a1]. *)
Lemma info_leaves_out_encrypted_fields_token :
  let m : gmap string pyval := {[ "k" := PStr "s"; "disks" := PList [] ]} in
  let i := mkField "token" false true in
  category_instance a1 = Some host ∧
  NoDup (field_name <$> local_fields host) ∧
  info decode a1 = Some m ∧
  i ∈ local_fields host ∧
  field_is_encrypt i = true ∧
  m !! field_name i
  = (layer (custom_info a1) ∪ layer (gathered_info a1)) !! field_name i.
Proof.
  intros m i.
  assert (category_instance a1 = Some host) as Hinst
    by (vm_compute; reflexivity).
  assert (NoDup (field_name <$> local_fields host)) as Hnd
    by (apply (bool_decide_unpack _); vm_compute; exact I).
  assert (info decode a1 = Some m) as Hinfo by (vm_compute; reflexivity).
  assert (i ∈ local_fields host) as Hi by (do 3 right; left).
  split; [exact Hinst|]. split; [exact Hnd|]. split; [exact Hinfo|].
  split; [exact Hi|]. split; [reflexivity|].
  exact (info_leaves_out_encrypted_fields decode a1 host m i Hinst Hnd Hinfo
           Hi eq_refl).
Defined.

(** [get_all_nodes_includes_direct] at [a1], whose direct node is [child]. *)
Lemma get_all_nodes_includes_direct_a1 :
  Forall (fun d => node_key d ∈ ancestor_keys d true)
         (get_nodes the_root db a1) ∧
  get_nodes the_root db a1 ⊆ get_all_nodes ancestor_keys the_root db a1.
Proof.
  assert (Forall (fun d => node_key d ∈ ancestor_keys d true)
                 (get_nodes the_root db a1)) as Hself
    by (apply (bool_decide_unpack _); vm_compute; exact I).
  split; [exact Hself|].
  exact (get_all_nodes_includes_direct ancestor_keys the_root db a1 Hself).
Defined.

(** [get_all_nodes_for_assets_same_assets] at two lists of the same two
    assets. *)
Lemma get_all_nodes_for_assets_same_assets_a1_a2 :
  (∀ a, a ∈ [a1; a2] ↔ a ∈ [a2; a1; a1]) ∧
  (get_all_nodes_for_assets ancestor_keys the_root db [a1; a2]
   = get_all_nodes_for_assets ancestor_keys the_root db [a2; a1; a1] ∧
   get_all_nodes_for_assets ancestor_keys the_root db [] = []).
Proof.
  assert (∀ a, a ∈ [a1; a2] ↔ a ∈ [a2; a1; a1]) as Hsame.
  { intros a. rewrite !elem_of_cons, !elem_of_nil. tauto. }
  split; [exact Hsame|].
  exact (get_all_nodes_for_assets_same_assets ancestor_keys the_root db
           [a1; a2] [a2; a1; a1] Hsame).
Defined.

(** [get_all_nodes_without_nodes] at [a2], which has no node, and [a3],
    linked to the root node alone. *)
Lemma get_all_nodes_without_nodes_a2_a3 :
  NoDup (node_id <$> node_table db_rooted) ∧
  the_root (node_table db_rooted) ∈ node_table db_rooted ∧
  nodes_all db_rooted a2 = [] ∧
  nodes_all db_rooted a3 = [the_root (node_table db_rooted)] ∧
  (get_all_node_keys ancestor_keys the_root db_rooted a2
   = list_to_set (ancestor_keys (the_root (node_table db_rooted)) true) ∧
   get_all_node_keys ancestor_keys the_root db_rooted a2
   = get_all_node_keys ancestor_keys the_root db_rooted a3 ∧
   get_all_nodes ancestor_keys the_root db_rooted a2
   = get_all_nodes ancestor_keys the_root db_rooted a3).
Proof.
  assert (NoDup (node_id <$> node_table db_rooted)) as Hnd
    by (apply (bool_decide_unpack _); vm_compute; exact I).
  assert (the_root (node_table db_rooted) ∈ node_table db_rooted) as Hroot
    by (apply (bool_decide_unpack _); vm_compute; exact I).
  assert (nodes_all db_rooted a2 = []) as Ha by (vm_compute; reflexivity).
  assert (nodes_all db_rooted a3 = [the_root (node_table db_rooted)]) as Hb
    by (vm_compute; reflexivity).
  split; [exact Hnd|]. split; [exact Hroot|].
  split; [exact Ha|]. split; [exact Hb|].
  exact (get_all_nodes_without_nodes ancestor_keys the_root db_rooted a2 a3
           Hnd Hroot Ha Hb).
Defined.

(** [get_target_ssh_port_any_row_order] at [db] and its reordering. *)
Lemma get_target_ssh_port_any_row_order_a1 :
  NoDup (proto_id <$> protocol_table db) ∧
  protocol_table db ≡ₚ protocol_table db_reordered ∧
  get_target_ssh_port db a1 = get_target_ssh_port db_reordered a1.
Proof.
  assert (NoDup (proto_id <$> protocol_table db)) as Hnd
    by (apply (bool_decide_unpack _); vm_compute; exact I).
  assert (protocol_table db ≡ₚ protocol_table db_reordered) as Hperm.
  { simpl. etrans; [apply perm_swap|]. do 2 apply perm_skip. apply perm_swap. }
  split; [exact Hnd|]. split; [exact Hperm|].
  exact (get_target_ssh_port_any_row_order db db_reordered a1 Hnd Hperm).
Defined.

End Instances.
